(** * Socket option constants of [asm/socket.h] (mipsel-linux-android)

    The header is a list of object-like macro definitions.  Each one is kept
    here as the text the header has, a macro name and its one-token
    replacement list, and is given its value by the two steps a C translation
    unit applies to a use of the name: macro expansion (with rescanning) and
    the reading of the resulting integer constant.

    Lines 19-21 and 92 of the header (the include guard and the inclusion of
    [asm/sockios.h]) define no socket option; the list below is lines 22-91,
    in the order of the file, and [File] further down puts it back between
    those lines. *)

From Stdlib Require Import ZArith Ascii String.
From stdpp Require Import gmap strings list fin_maps.

Local Open Scope string_scope.
Local Open Scope Z_scope.

(** ** The text of the header *)

(** [#define macro_name replacement] *)
Record define := Define { macro_name : string; replacement : string }.

#[global] Instance define_eq_dec : EqDecision define.
Proof. solve_decision. Defined.

Module Header.

Definition socket_h : list define :=
  [ Define "SOL_SOCKET" "0xffff"
  ; Define "SO_DEBUG" "0x0001"
  ; Define "SO_REUSEADDR" "0x0004"
  ; Define "SO_KEEPALIVE" "0x0008"
  ; Define "SO_DONTROUTE" "0x0010"
  ; Define "SO_BROADCAST" "0x0020"
  ; Define "SO_LINGER" "0x0080"
  ; Define "SO_OOBINLINE" "0x0100"
  ; Define "SO_REUSEPORT" "0x0200"
  ; Define "SO_TYPE" "0x1008"
  ; Define "SO_STYLE" "SO_TYPE"
  ; Define "SO_ERROR" "0x1007"
  ; Define "SO_SNDBUF" "0x1001"
  ; Define "SO_RCVBUF" "0x1002"
  ; Define "SO_SNDLOWAT" "0x1003"
  ; Define "SO_RCVLOWAT" "0x1004"
  ; Define "SO_SNDTIMEO" "0x1005"
  ; Define "SO_RCVTIMEO" "0x1006"
  ; Define "SO_ACCEPTCONN" "0x1009"
  ; Define "SO_PROTOCOL" "0x1028"
  ; Define "SO_DOMAIN" "0x1029"
  ; Define "SO_NO_CHECK" "11"
  ; Define "SO_PRIORITY" "12"
  ; Define "SO_BSDCOMPAT" "14"
  ; Define "SO_PASSCRED" "17"
  ; Define "SO_PEERCRED" "18"
  ; Define "SO_SECURITY_AUTHENTICATION" "22"
  ; Define "SO_SECURITY_ENCRYPTION_TRANSPORT" "23"
  ; Define "SO_SECURITY_ENCRYPTION_NETWORK" "24"
  ; Define "SO_BINDTODEVICE" "25"
  ; Define "SO_ATTACH_FILTER" "26"
  ; Define "SO_DETACH_FILTER" "27"
  ; Define "SO_GET_FILTER" "SO_ATTACH_FILTER"
  ; Define "SO_PEERNAME" "28"
  ; Define "SO_TIMESTAMP" "29"
  ; Define "SCM_TIMESTAMP" "SO_TIMESTAMP"
  ; Define "SO_PEERSEC" "30"
  ; Define "SO_SNDBUFFORCE" "31"
  ; Define "SO_RCVBUFFORCE" "33"
  ; Define "SO_PASSSEC" "34"
  ; Define "SO_TIMESTAMPNS" "35"
  ; Define "SCM_TIMESTAMPNS" "SO_TIMESTAMPNS"
  ; Define "SO_MARK" "36"
  ; Define "SO_TIMESTAMPING" "37"
  ; Define "SCM_TIMESTAMPING" "SO_TIMESTAMPING"
  ; Define "SO_RXQ_OVFL" "40"
  ; Define "SO_WIFI_STATUS" "41"
  ; Define "SCM_WIFI_STATUS" "SO_WIFI_STATUS"
  ; Define "SO_PEEK_OFF" "42"
  ; Define "SO_NOFCS" "43"
  ; Define "SO_LOCK_FILTER" "44"
  ; Define "SO_SELECT_ERR_QUEUE" "45"
  ; Define "SO_BUSY_POLL" "46"
  ; Define "SO_MAX_PACING_RATE" "47"
  ; Define "SO_BPF_EXTENSIONS" "48"
  ; Define "SO_INCOMING_CPU" "49"
  ; Define "SO_ATTACH_BPF" "50"
  ; Define "SO_DETACH_BPF" "SO_DETACH_FILTER"
  ; Define "SO_ATTACH_REUSEPORT_CBPF" "51"
  ; Define "SO_ATTACH_REUSEPORT_EBPF" "52"
  ; Define "SO_CNX_ADVICE" "53"
  ; Define "SCM_TIMESTAMPING_OPT_STATS" "54"
  ; Define "SO_MEMINFO" "55"
  ; Define "SO_INCOMING_NAPI_ID" "56"
  ; Define "SO_COOKIE" "57"
  ; Define "SCM_TIMESTAMPING_PKTINFO" "58"
  ; Define "SO_PEERGROUPS" "59"
  ; Define "SO_ZEROCOPY" "60"
  ; Define "SO_TXTIME" "61"
  ; Define "SCM_TXTIME" "SO_TXTIME"
  ].

End Header.

(** ** Tokens *)

Module Token.

Definition code (c : ascii) : Z := Z.of_N (N_of_ascii c).

Definition is_digit (c : ascii) : bool :=
  (48 <=? code c) && (code c <=? 57).

Definition is_nondigit (c : ascii) : bool :=
  ((65 <=? code c) && (code c <=? 90))
  || ((97 <=? code c) && (code c <=? 122))
  || (code c =? 95).

Fixpoint all_chars (p : ascii -> bool) (s : string) : bool :=
  match s with
  | EmptyString => true
  | String c s' => p c && all_chars p s'
  end.

(** An identifier: a letter or underscore, then letters, digits and
    underscores. *)
Definition is_identifier (s : string) : bool :=
  match s with
  | EmptyString => false
  | String c s' =>
      is_nondigit c && all_chars (fun d => is_nondigit d || is_digit d) s'
  end.

(** The value of one digit, hexadecimal digits included. *)
Definition digit_value (c : ascii) : option Z :=
  if is_digit c then Some (code c - 48)
  else if (97 <=? code c) && (code c <=? 102) then Some (code c - 87)
  else if (65 <=? code c) && (code c <=? 70) then Some (code c - 55)
  else None.

Fixpoint digits (base acc : Z) (s : string) : option Z :=
  match s with
  | EmptyString => Some acc
  | String c s' =>
      match digit_value c with
      | Some d => if d <? base then digits base (acc * base + d) s' else None
      | None => None
      end
  end.

(** An unsuffixed C integer constant: [0x] or [0X] starts a hexadecimal
    constant, another leading [0] an octal one, any other digit a decimal
    one.  Everything else is not an integer constant. *)
Definition integer_constant (s : string) : option Z :=
  match s with
  | String "0" (String "x" (String c s')) => digits 16 0 (String c s')
  | String "0" (String "X" (String c s')) => digits 16 0 (String c s')
  | String "0" s' => digits 8 0 s'
  | String c s' => if is_digit c then digits 10 0 s else None
  | EmptyString => None
  end.

End Token.

(** ** The preprocessor *)

Module Cpp.

(** [#define]: the name is entered with its replacement list.  A name
    that is defined already is defined again: the new replacement list takes
    the place of the old one.  A compiler that finds the two lists different
    says so and goes on; no definition of this form stops it. *)
Definition do_define (m : gmap string string) (d : define)
  : option (gmap string string) :=
  Some (<[macro_name d := replacement d]> m).

Fixpoint run (m : gmap string string) (ds : list define)
  : option (gmap string string) :=
  match ds with
  | [] => Some m
  | d :: ds' =>
      match do_define m d with
      | Some m' => run m' ds'
      | None => None
      end
  end.

(** Expansion of one token with rescanning.  A name that is being replaced
    is not replaced again inside its own expansion ([hidden]); [None] only
    when the fuel is used up. *)
Fixpoint expand (m : gmap string string) (fuel : nat) (hidden : gset string)
  (tok : string) : option string :=
  match fuel with
  | O => None
  | S fuel' =>
      if decide (tok ∈ hidden) then Some tok
      else match m !! tok with
           | Some r => expand m fuel' ({[tok]} ∪ hidden) r
           | None => Some tok
           end
  end.

(** The integer a use of the macro [N] stands for, after the definitions
    [ds]: [None] when [N] is not defined by them or does not expand to an
    integer constant. *)
Definition eval (ds : list define) (N : string) : option Z :=
  match run ∅ ds with
  | None => None
  | Some m =>
      match m !! N with
      | None => None
      | Some _ =>
          match expand m (S (size m)) ∅ N with
          | Some tok => Token.integer_constant tok
          | None => None
          end
      end
  end.

End Cpp.

Definition defined_names (ds : list define) : list string :=
  macro_name <$> ds.

(** The names defined as another name, with that name. *)
Definition aliases (ds : list define) : list (string * string) :=
  (fun d => (macro_name d, replacement d))
    <$> filter (fun d => Token.is_identifier (replacement d) = true) ds.

(** The names defined by an integer constant. *)
Definition literal_names (ds : list define) : list string :=
  macro_name
    <$> filter (fun d => Token.is_identifier (replacement d) = false) ds.

(** The value of a name of the header. *)
Definition value_of (N : string) : option Z := Cpp.eval Header.socket_h N.

(** ** The constant table

    The table as the specification describes it: named constants, each
    either a literal integer or an alias of a previously defined entry.  An
    alias takes the value its target has when the alias is defined. *)

Module Table.

Inductive definition :=
| Literal (z : Z)
| AliasOf (target : string).

Record NamedConstant := Named { name : string; def : definition }.

Definition constant_table : list NamedConstant :=
  [ Named "SOL_SOCKET" (Literal 65535)
  ; Named "SO_DEBUG" (Literal 1)
  ; Named "SO_REUSEADDR" (Literal 4)
  ; Named "SO_KEEPALIVE" (Literal 8)
  ; Named "SO_DONTROUTE" (Literal 16)
  ; Named "SO_BROADCAST" (Literal 32)
  ; Named "SO_LINGER" (Literal 128)
  ; Named "SO_OOBINLINE" (Literal 256)
  ; Named "SO_REUSEPORT" (Literal 512)
  ; Named "SO_TYPE" (Literal 4104)
  ; Named "SO_STYLE" (AliasOf "SO_TYPE")
  ; Named "SO_ERROR" (Literal 4103)
  ; Named "SO_SNDBUF" (Literal 4097)
  ; Named "SO_RCVBUF" (Literal 4098)
  ; Named "SO_SNDLOWAT" (Literal 4099)
  ; Named "SO_RCVLOWAT" (Literal 4100)
  ; Named "SO_SNDTIMEO" (Literal 4101)
  ; Named "SO_RCVTIMEO" (Literal 4102)
  ; Named "SO_ACCEPTCONN" (Literal 4105)
  ; Named "SO_PROTOCOL" (Literal 4136)
  ; Named "SO_DOMAIN" (Literal 4137)
  ; Named "SO_NO_CHECK" (Literal 11)
  ; Named "SO_PRIORITY" (Literal 12)
  ; Named "SO_BSDCOMPAT" (Literal 14)
  ; Named "SO_PASSCRED" (Literal 17)
  ; Named "SO_PEERCRED" (Literal 18)
  ; Named "SO_SECURITY_AUTHENTICATION" (Literal 22)
  ; Named "SO_SECURITY_ENCRYPTION_TRANSPORT" (Literal 23)
  ; Named "SO_SECURITY_ENCRYPTION_NETWORK" (Literal 24)
  ; Named "SO_BINDTODEVICE" (Literal 25)
  ; Named "SO_ATTACH_FILTER" (Literal 26)
  ; Named "SO_DETACH_FILTER" (Literal 27)
  ; Named "SO_GET_FILTER" (AliasOf "SO_ATTACH_FILTER")
  ; Named "SO_PEERNAME" (Literal 28)
  ; Named "SO_TIMESTAMP" (Literal 29)
  ; Named "SCM_TIMESTAMP" (AliasOf "SO_TIMESTAMP")
  ; Named "SO_PEERSEC" (Literal 30)
  ; Named "SO_SNDBUFFORCE" (Literal 31)
  ; Named "SO_RCVBUFFORCE" (Literal 33)
  ; Named "SO_PASSSEC" (Literal 34)
  ; Named "SO_TIMESTAMPNS" (Literal 35)
  ; Named "SCM_TIMESTAMPNS" (AliasOf "SO_TIMESTAMPNS")
  ; Named "SO_MARK" (Literal 36)
  ; Named "SO_TIMESTAMPING" (Literal 37)
  ; Named "SCM_TIMESTAMPING" (AliasOf "SO_TIMESTAMPING")
  ; Named "SO_RXQ_OVFL" (Literal 40)
  ; Named "SO_WIFI_STATUS" (Literal 41)
  ; Named "SCM_WIFI_STATUS" (AliasOf "SO_WIFI_STATUS")
  ; Named "SO_PEEK_OFF" (Literal 42)
  ; Named "SO_NOFCS" (Literal 43)
  ; Named "SO_LOCK_FILTER" (Literal 44)
  ; Named "SO_SELECT_ERR_QUEUE" (Literal 45)
  ; Named "SO_BUSY_POLL" (Literal 46)
  ; Named "SO_MAX_PACING_RATE" (Literal 47)
  ; Named "SO_BPF_EXTENSIONS" (Literal 48)
  ; Named "SO_INCOMING_CPU" (Literal 49)
  ; Named "SO_ATTACH_BPF" (Literal 50)
  ; Named "SO_DETACH_BPF" (AliasOf "SO_DETACH_FILTER")
  ; Named "SO_ATTACH_REUSEPORT_CBPF" (Literal 51)
  ; Named "SO_ATTACH_REUSEPORT_EBPF" (Literal 52)
  ; Named "SO_CNX_ADVICE" (Literal 53)
  ; Named "SCM_TIMESTAMPING_OPT_STATS" (Literal 54)
  ; Named "SO_MEMINFO" (Literal 55)
  ; Named "SO_INCOMING_NAPI_ID" (Literal 56)
  ; Named "SO_COOKIE" (Literal 57)
  ; Named "SCM_TIMESTAMPING_PKTINFO" (Literal 58)
  ; Named "SO_PEERGROUPS" (Literal 59)
  ; Named "SO_ZEROCOPY" (Literal 60)
  ; Named "SO_TXTIME" (Literal 61)
  ; Named "SCM_TXTIME" (AliasOf "SO_TXTIME")
  ].

(** One entry is added to the values so far; a name already present or an
    alias of a name not yet present has no table. *)
Definition add (t : gmap string Z) (c : NamedConstant)
  : option (gmap string Z) :=
  match t !! name c with
  | Some _ => None
  | None =>
      match def c with
      | Literal z => Some (<[name c := z]> t)
      | AliasOf b =>
          match t !! b with
          | Some z => Some (<[name c := z]> t)
          | None => None
          end
      end
  end.

Fixpoint build (t : gmap string Z) (cs : list NamedConstant)
  : option (gmap string Z) :=
  match cs with
  | [] => Some t
  | c :: cs' =>
      match add t c with
      | Some t' => build t' cs'
      | None => None
      end
  end.

Definition names : gset string := list_to_set (name <$> constant_table).

Definition lookup (N : string) : option Z :=
  match build ∅ constant_table with
  | Some t => t !! N
  | None => None
  end.

End Table.

(** ** Alias pairs and bounds *)

(** The eight alias pairs of the header, in the order of the file. *)
Definition alias_pairs : list (string * string) :=
  [ ("SO_STYLE", "SO_TYPE")
  ; ("SO_GET_FILTER", "SO_ATTACH_FILTER")
  ; ("SCM_TIMESTAMP", "SO_TIMESTAMP")
  ; ("SCM_TIMESTAMPNS", "SO_TIMESTAMPNS")
  ; ("SCM_TIMESTAMPING", "SO_TIMESTAMPING")
  ; ("SCM_WIFI_STATUS", "SO_WIFI_STATUS")
  ; ("SO_DETACH_BPF", "SO_DETACH_FILTER")
  ; ("SCM_TXTIME", "SO_TXTIME")
  ].

(** The table entry that a definition of the header is written as: an
    alias when the replacement is a name, a literal when it is an integer
    constant. *)
Definition entry_of (d : define) : option Table.NamedConstant :=
  if Token.is_identifier (replacement d)
  then Some (Table.Named (macro_name d) (Table.AliasOf (replacement d)))
  else match Token.integer_constant (replacement d) with
       | Some z => Some (Table.Named (macro_name d) (Table.Literal z))
       | None => None
       end.

(** Whether the value of [N] lies between [lo] and [hi]. *)
Definition value_within (lo hi : Z) (N : string) : bool :=
  match value_of N with
  | Some z => (lo <=? z) && (z <=? hi)
  | None => false
  end.

(** ** The whole file

    Lines 19-92: the definitions of lines 22-91 stand inside the group that
    [#ifndef _UAPI_ASM_SOCKET_H] opens and [#endif] closes, after the
    definition of the guard and the inclusion of [asm/sockios.h]. *)

Module File.

Inductive line :=
| Ifndef (macro : string)
| DefineLine (d : define)
| Include (header : string)
| Endif.

Definition guard : string := "_UAPI_ASM_SOCKET_H".

Definition socket_h : list line :=
  [ Ifndef guard
  ; DefineLine (Define guard "")
  ; Include "asm/sockios.h" ]
  ++ (DefineLine <$> Header.socket_h)
  ++ [ Endif ].

Section Process.

(** What an included header does to the macros; [asm/sockios.h] is not
    part of these sources. *)
Variable include : string → gmap string string → option (gmap string string).

(** The lines are processed in order.  [opened] counts the groups being
    processed, [skipped] the nested groups being skipped: inside a skipped
    group only [#ifndef] and [#endif] are looked at.  An [#endif] without
    its [#ifndef] and a group left open are rejected. *)
Fixpoint process (opened skipped : nat) (m : gmap string string)
  (ls : list line) : option (gmap string string) :=
  match ls with
  | [] => if decide (opened = 0%nat ∧ skipped = 0%nat) then Some m else None
  | l :: ls' =>
      match skipped with
      | S k =>
          match l with
          | Ifndef _ => process opened (S (S k)) m ls'
          | Endif => process opened k m ls'
          | _ => process opened (S k) m ls'
          end
      | O =>
          match l with
          | Ifndef g =>
              match m !! g with
              | Some _ => process opened 1 m ls'
              | None => process (S opened) 0 m ls'
              end
          | DefineLine d =>
              match Cpp.do_define m d with
              | Some m' => process opened 0 m' ls'
              | None => None
              end
          | Include h =>
              match include h m with
              | Some m' => process opened 0 m' ls'
              | None => None
              end
          | Endif =>
              match opened with
              | S o => process o 0 m ls'
              | O => None
              end
          end
      end
  end.

(** [#include <asm/socket.h>] with the macros [m] defined. *)
Definition include_socket_h (m : gmap string string)
  : option (gmap string string) :=
  process 0 0 m socket_h.

End Process.

End File.

(** The integer a use of [N] stands for where the macros [m] are defined. *)
Definition value_in (m : gmap string string) (N : string) : option Z :=
  match m !! N with
  | None => None
  | Some _ =>
      match Cpp.expand m (S (size m)) ∅ N with
      | Some tok => Token.integer_constant tok
      | None => None
      end
  end.

(** A table whose macro names are identifiers. *)
Definition identifier_keys (m : gmap string string) : Prop :=
  ∀ k, is_Some (m !! k) → Token.is_identifier k = true.

(** [m] defines no name of [ds] with another replacement than [ds] has. *)
Definition compatible (m : gmap string string) (ds : list define) : Prop :=
  ∀ d, d ∈ ds →
    m !! macro_name d = None ∨ m !! macro_name d = Some (replacement d).

(** A table that has the definitions of the header, under identifiers
    only. *)
Definition has_socket_h (m : gmap string string) : Prop :=
  identifier_keys m
  ∧ ∀ d, d ∈ Header.socket_h → m !! macro_name d = Some (replacement d).

(** Whether every alias of [ds] has its target defined by an integer
    constant in [seen] or earlier in [ds]. *)
Fixpoint targets_before (seen ds : list define) : bool :=
  match ds with
  | [] => true
  | d :: ds' =>
      (if Token.is_identifier (replacement d)
       then existsb (fun t => bool_decide (macro_name t = replacement d)
                              && negb (Token.is_identifier (replacement t)))
                    seen
       else true)
      && targets_before (d :: seen) ds'
  end.

#[local] Abbreviation names := (defined_names Header.socket_h).
#[local] Abbreviation literals := (literal_names Header.socket_h).

(** [N] has the value of another name of the header. *)
Definition shares_value (N : string) : Prop :=
  ∃ M, M ∈ names ∧ M ≠ N ∧ value_of M = value_of N.

(** ** The definitions at work *)

Example value_of_SO_DEBUG : value_of "SO_DEBUG" = Some 1.
Proof. vm_compute. reflexivity. Qed.

Example value_of_SO_GET_FILTER : value_of "SO_GET_FILTER" = Some 26.
Proof. vm_compute. reflexivity. Qed.

Example value_of_undefined : value_of "SO_NOSUCH" = None.
Proof. vm_compute. reflexivity. Qed.

Example lookup_SO_STYLE : Table.lookup "SO_STYLE" = Some 4104.
Proof. vm_compute. reflexivity. Qed.

Example run_defines_again :
  Cpp.run ∅ [Define "A" "1"; Define "A" "2"] = Some {[ "A" := "2" ]}.
Proof. compute_done. Qed.

Example integer_constant_octal : Token.integer_constant "017" = Some 15.
Proof. reflexivity. Qed.

Example integer_constant_name : Token.integer_constant "SO_TYPE" = None.
Proof. reflexivity. Qed.

(** ** Facts about the preprocessor, for any list of definitions *)

Section Preprocessor.

Implicit Types (m : gmap string string) (d : define) (ds : list define).
Implicit Types (N tok : string) (hidden : gset string).

Lemma do_define_lookup m d m' N :
  Cpp.do_define m d = Some m' →
  m' !! N = if decide (N = macro_name d) then Some (replacement d) else m !! N.
Proof.
  unfold Cpp.do_define. intros [= <-]. case_decide as HN.
  - subst N. apply lookup_insert_eq.
  - apply lookup_insert_ne. congruence.
Qed.

(** [run] defines the names of its list and no other. *)
Lemma run_lookup_is_Some m ds m' N :
  Cpp.run m ds = Some m' →
  is_Some (m' !! N) ↔ is_Some (m !! N) ∨ N ∈ defined_names ds.
Proof.
  revert m. induction ds as [|d ds IH]; intros m; simpl.
  - intros [= <-]. unfold defined_names. simpl. rewrite elem_of_nil. tauto.
  - intros Hrun. rewrite (IH _ Hrun), (do_define_lookup m d _ N eq_refl).
    unfold defined_names. simpl. rewrite elem_of_cons.
    case_decide as HN.
    + subst N. split; [intros _|intros _; left; eauto]. right. by left.
    + tauto.
Qed.

(** A name with a value is a name of the list. *)
Lemma eval_defined ds N z : Cpp.eval ds N = Some z → N ∈ defined_names ds.
Proof.
  unfold Cpp.eval. destruct (Cpp.run ∅ ds) as [m|] eqn:Hrun; [|discriminate].
  destruct (m !! N) as [r|] eqn:HN; [|discriminate]. intros _.
  destruct (proj1 (run_lookup_is_Some _ _ _ N Hrun)) as [[? Hemp]|]; eauto.
  by rewrite lookup_empty in Hemp.
Qed.

(** Expansion stops: every step hides one more defined name. *)
Lemma expand_fuel m fuel hidden tok :
  hidden ⊆ dom m →
  (size m < fuel + size hidden)%nat →
  is_Some (Cpp.expand m fuel hidden tok).
Proof.
  revert hidden tok. induction fuel as [|fuel IH]; intros hidden tok Hsub Hlt.
  - apply subseteq_size in Hsub. rewrite size_dom in Hsub. lia.
  - simpl. case_decide as Hin; [eauto|].
    destruct (m !! tok) as [r|] eqn:Htok; [|eauto].
    apply IH.
    + apply union_least; [|done].
      apply singleton_subseteq_l, elem_of_dom. eauto.
    + rewrite size_union by set_solver. rewrite size_singleton. lia.
Qed.

Lemma expand_total m tok : is_Some (Cpp.expand m (S (size m)) ∅ tok).
Proof. apply expand_fuel; [set_solver|]. rewrite size_empty. lia. Qed.

End Preprocessor.

(** A function that takes different values on a list takes them at
    different places. *)
Lemma NoDup_fmap_inj {A B} (f : A → B) (l : list A) x y :
  NoDup (f <$> l) → x ∈ l → y ∈ l → f x = f y → x = y.
Proof.
  induction l as [|a l IH]; simpl; [by rewrite elem_of_nil|].
  rewrite NoDup_cons, !elem_of_cons, list_elem_of_fmap.
  intros [Ha Hl] [->|Hx] [->|Hy] Hxy; eauto.
  - destruct Ha. eauto.
  - destruct Ha. eauto.
Qed.

(** [Table.build] defines the names of its entries and no other. *)
Lemma build_lookup_is_Some (t t' : gmap string Z) cs (N : string) :
  Table.build t cs = Some t' →
  is_Some (t' !! N) → is_Some (t !! N) ∨ N ∈ Table.name <$> cs.
Proof.
  revert t. induction cs as [|c cs IH]; intros t; simpl.
  - intros [= <-]. eauto.
  - destruct (Table.add t c) as [t1|] eqn:Hadd; [|discriminate].
    intros Hb Hs. rewrite elem_of_cons.
    destruct (IH _ Hb Hs) as [Ht1|]; [|tauto].
    destruct (decide (N = Table.name c)) as [|HN]; [tauto|]. left.
    revert Hadd Ht1. unfold Table.add.
    destruct (t !! Table.name c); [discriminate|].
    destruct (Table.def c) as [z|b]; [|destruct (t !! b); [|discriminate]];
      intros [= <-]; by rewrite lookup_insert_ne.
Qed.

(** ** The header's table *)

Lemma names_NoDup : NoDup names.
Proof. compute_done. Qed.

Lemma names_length : length names = 70%nat.
Proof. reflexivity. Qed.

Lemma names_agree :
  Forall (fun N => is_Some (value_of N) ∧ Table.lookup N = value_of N) names.
Proof. compute_done. Qed.

Lemma table_name_list : Table.name <$> Table.constant_table = names.
Proof. vm_compute. reflexivity. Qed.

(** The table is the header, entry by entry. *)
Lemma constant_table_entries :
  mapM entry_of Header.socket_h = Some Table.constant_table.
Proof. vm_compute. reflexivity. Qed.

Lemma table_names : Table.names = list_to_set names.
Proof. unfold Table.names. by rewrite table_name_list. Qed.

Lemma aliases_socket_h : aliases Header.socket_h = alias_pairs.
Proof. vm_compute. reflexivity. Qed.

Lemma alias_pairs_agree :
  Forall (fun p => is_Some (value_of p.1) ∧ value_of p.1 = value_of p.2
                   ∧ p.2 ∈ literals ∧ p.1 ≠ p.2) alias_pairs.
Proof. compute_done. Qed.

Lemma alias_targets_NoDup : NoDup alias_pairs.*2.
Proof. compute_done. Qed.

Lemma literal_values_NoDup : NoDup (value_of <$> literals).
Proof. compute_done. Qed.

Lemma names_split : Forall (fun N => N ∈ literals ∨ N ∈ alias_pairs.*1) names.
Proof. compute_done. Qed.

Lemma values_within : forallb (value_within 0 0xffff) names = true.
Proof. vm_compute. reflexivity. Qed.


Lemma value_within_spec lo hi N :
  value_within lo hi N = true ↔ ∃ z, value_of N = Some z ∧ lo ≤ z ≤ hi.
Proof.
  unfold value_within. destruct (value_of N) as [z|].
  - rewrite andb_true_iff, !Z.leb_le. split; [eauto|].
    intros (z' & [= <-] & Hz). exact Hz.
  - split; [discriminate|]. intros (z & Hz & _). discriminate.
Qed.

Lemma value_of_defined N z : value_of N = Some z → N ∈ names.
Proof. apply eval_defined. Qed.

Lemma lookup_defined_name N z : Table.lookup N = Some z → N ∈ names.
Proof.
  unfold Table.lookup.
  destruct (Table.build ∅ Table.constant_table) as [t|] eqn:Hb; [|discriminate].
  intros Hz. rewrite <- table_name_list.
  destruct (build_lookup_is_Some _ _ _ N Hb) as [[? He]|Hn]; [eauto| |exact Hn].
  by rewrite lookup_empty in He.
Qed.

(** From here on values are compared as they are, not recomputed. *)
#[local] Opaque value_of Table.lookup.

Lemma name_agrees N :
  N ∈ names → is_Some (value_of N) ∧ Table.lookup N = value_of N.
Proof. exact (proj1 (Forall_forall _ _) names_agree N). Qed.

Lemma alias_pair_value A B :
  (A, B) ∈ alias_pairs →
  is_Some (value_of A) ∧ value_of A = value_of B ∧ B ∈ literals ∧ A ≠ B.
Proof. exact (proj1 (Forall_forall _ _) alias_pairs_agree (A, B)). Qed.

(** ** Properties of the table *)

(** C1: the names of the constant table are exactly the 70 macro names that
    lines 22-91 of the header define, and the table gives every name the
    integer its macro expands to; a name outside has no value on either
    side. *)
Theorem table_matches_header :
  length names = 70%nat
  ∧ NoDup names
  ∧ Table.names = list_to_set names
  ∧ (∀ N, N ∈ names ↔ is_Some (value_of N))
  ∧ (∀ N, Table.lookup N = value_of N).
Proof.
  split; [exact names_length|].
  split; [exact names_NoDup|].
  split; [exact table_names|].
  split.
  - intros N. split; [apply name_agrees|].
    intros [z Hz]. exact (value_of_defined _ _ Hz).
  - intros N. destruct (decide (N ∈ names)) as [HN|HN]; [apply name_agrees, HN|].
    destruct (Table.lookup N) as [z|] eqn:Hl.
    { destruct HN. exact (lookup_defined_name _ _ Hl). }
    destruct (value_of N) as [z|] eqn:Hv; [|reflexivity].
    destruct HN. exact (value_of_defined _ _ Hv).
Qed.

Lemma table_matches_header_witness :
  is_Some (value_of "SO_LINGER") ∧ Table.lookup "SO_LINGER" = Some 128.
Proof.
  destruct table_matches_header as (_ & _ & _ & Hdef & Heq).
  split; [apply Hdef; compute_done|].
  rewrite Heq. vm_compute. reflexivity.
Defined.

(** C2: the aliases of the header are the eight listed pairs; in each pair
    the alias and its target have the same value, and that value is an
    integer: the alias expands, through its target, to an integer
    constant. *)
Theorem alias_pairs_equal :
  aliases Header.socket_h = alias_pairs
  ∧ ∀ A B, (A, B) ∈ alias_pairs →
      ∃ z, value_of A = Some z ∧ value_of B = Some z.
Proof.
  split; [exact aliases_socket_h|].
  intros A B H. destruct (alias_pair_value A B H) as ([z Hz] & Heq & _ & _).
  exists z. split; congruence.
Qed.

Lemma alias_pairs_equal_witness :
  ∃ z, value_of "SCM_TXTIME" = Some z ∧ value_of "SO_TXTIME" = Some z.
Proof.
  apply (proj2 alias_pairs_equal "SCM_TXTIME" "SO_TXTIME"). compute_done.
Defined.

(** C3: looking up a defined name cannot fail.  For every name of the
    header the lookup returns [Some] of one integer, the one the macro
    expands to, and no lookup of that name returns anything else. *)
Theorem lookup_defined N :
  N ∈ names →
  ∃ v, Table.lookup N = Some v ∧ value_of N = Some v
       ∧ ∀ v', Table.lookup N = Some v' → v' = v.
Proof.
  intros HN. destruct (name_agrees N HN) as [[v Hv] Heq].
  exists v. repeat split; congruence.
Qed.

Lemma lookup_defined_witness :
  ∃ v, Table.lookup "SO_RCVBUF" = Some v ∧ value_of "SO_RCVBUF" = Some v
       ∧ ∀ v', Table.lookup "SO_RCVBUF" = Some v' → v' = v.
Proof. apply (lookup_defined "SO_RCVBUF"). compute_done. Defined.

(** C4: the value of SOL_SOCKET is 0xffff, which is 65535. *)
Theorem SOL_SOCKET_value :
  value_of "SOL_SOCKET" = Some 65535
  ∧ Token.integer_constant "0xffff" = Some 65535.
Proof. split; vm_compute; reflexivity. Qed.

(** C5: SO_STYLE and SO_TYPE have the same value, 0x1008, which is 4104. *)
Theorem SO_STYLE_value :
  value_of "SO_STYLE" = value_of "SO_TYPE"
  ∧ value_of "SO_TYPE" = Some 4104
  ∧ Token.integer_constant "0x1008" = Some 4104.
Proof. repeat split; vm_compute; reflexivity. Qed.

(** C6: SO_DETACH_BPF and SO_DETACH_FILTER have the same value, 27. *)
Theorem SO_DETACH_BPF_value :
  value_of "SO_DETACH_BPF" = value_of "SO_DETACH_FILTER"
  ∧ value_of "SO_DETACH_FILTER" = Some 27.
Proof. split; vm_compute; reflexivity. Qed.

(** C7: SCM_TIMESTAMPING and SO_TIMESTAMPING have the same value, 37. *)
Theorem SCM_TIMESTAMPING_value :
  value_of "SCM_TIMESTAMPING" = value_of "SO_TIMESTAMPING"
  ∧ value_of "SO_TIMESTAMPING" = Some 37.
Proof. split; vm_compute; reflexivity. Qed.

(** C8: the value of SO_REUSEADDR is 0x0004, which is 4, and no name is
    defined twice: the names of the header are pairwise distinct, so are
    those of the table, and two definitions of one name are one
    definition. *)
Theorem SO_REUSEADDR_value_and_unique_names :
  value_of "SO_REUSEADDR" = Some 4
  ∧ Token.integer_constant "0x0004" = Some 4
  ∧ NoDup names
  ∧ NoDup (Table.name <$> Table.constant_table)
  ∧ ∀ d1 d2, d1 ∈ Header.socket_h → d2 ∈ Header.socket_h →
      macro_name d1 = macro_name d2 → d1 = d2.
Proof.
  split; [vm_compute; reflexivity|].
  split; [vm_compute; reflexivity|].
  split; [exact names_NoDup|].
  split; [rewrite table_name_list; exact names_NoDup|].
  intros d1 d2. apply NoDup_fmap_inj. exact names_NoDup.
Qed.

Lemma SO_REUSEADDR_value_and_unique_names_witness :
  Define "SO_REUSEADDR" "0x0004" = Define "SO_REUSEADDR" "0x0004".
Proof.
  apply SO_REUSEADDR_value_and_unique_names; [compute_done|compute_done|].
  reflexivity.
Defined.

Lemma alias_pairs_names :
  Forall (fun p => p.1 ∈ names ∧ p.2 ∈ names) alias_pairs.
Proof. compute_done. Qed.

Lemma alias_collisions :
  (∀ A B, A ∈ literals → B ∈ literals → A ≠ B → value_of A ≠ value_of B)
  ∧ (∀ A B, (A, B) ∈ aliases Header.socket_h →
       A ≠ B ∧ B ∈ literals ∧ value_of A = value_of B)
  ∧ (∀ A B, A ∈ names → B ∈ names → A ≠ B → value_of A = value_of B →
       (A, B) ∈ aliases Header.socket_h ∨ (B, A) ∈ aliases Header.socket_h).
Proof.
  assert (Hinj : ∀ A B, A ∈ literals → B ∈ literals →
                        value_of A = value_of B → A = B).
  { intros A B. apply NoDup_fmap_inj. exact literal_values_NoDup. }
  assert (Hkind : ∀ N, N ∈ names →
                       N ∈ literals ∨ ∃ T, (N, T) ∈ alias_pairs).
  { intros N HN.
    destruct (proj1 (Forall_forall _ _) names_split N HN) as [|Ha]; [by left|].
    right. apply list_elem_of_fmap in Ha as ([A T] & -> & Hp). by exists T. }
  split.
  { intros A B HA HB Hne Heq. apply Hne. by apply Hinj. }
  rewrite aliases_socket_h. split.
  { intros A B H. destruct (alias_pair_value A B H) as (_ & Heq & LB & Hne).
    by repeat split. }
  intros A B HA HB Hne Heq.
  destruct (Hkind A HA) as [LA|[T HT]], (Hkind B HB) as [LB|[U HU]].
  - destruct Hne. by apply Hinj.
  - destruct (alias_pair_value B U HU) as (_ & HBU & LU & _).
    assert (A = U) as -> by (apply Hinj; congruence). by right.
  - destruct (alias_pair_value A T HT) as (_ & HAT & LT & _).
    assert (T = B) as -> by (apply Hinj; congruence). by left.
  - destruct (alias_pair_value A T HT) as (_ & HAT & LT & _).
    destruct (alias_pair_value B U HU) as (_ & HBU & LU & _).
    assert (T = U) as -> by (apply Hinj; congruence).
    destruct Hne.
    assert ((A, U) = (B, U)) as [= ->]; [|reflexivity].
    eapply (NoDup_fmap_inj snd); [exact alias_targets_NoDup|done|done|done].
Qed.

(** C9, as the header has it: SO_TYPE is not an alias, and yet it has the
    value of another name, SO_STYLE.  So it is not only the 8 alias names
    that share a value with another name. *)
Lemma SO_TYPE_shares_value :
  "SO_TYPE" ∈ names
  ∧ shares_value "SO_TYPE"
  ∧ "SO_TYPE" ∉ (aliases Header.socket_h).*1
  ∧ ¬ (∀ N, N ∈ names → shares_value N → N ∈ (aliases Header.socket_h).*1).
Proof.
  assert (Hin : "SO_TYPE" ∈ names) by compute_done.
  assert (Hout : "SO_TYPE" ∉ (aliases Header.socket_h).*1) by compute_done.
  assert (Hs : shares_value "SO_TYPE").
  { exists "SO_STYLE". split; [compute_done|]. split; [discriminate|].
    vm_compute. reflexivity. }
  repeat split; [exact Hin|exact Hs|exact Hout|].
  intros H. exact (Hout (H _ Hin Hs)).
Qed.

(** C9, amended: the header has 62 names defined by an integer constant and
    8 defined as an alias.  Two different names defined by an integer
    constant have different values.  An alias has the value of its target,
    a different name that is defined by an integer constant, and two
    different names of the header have the same value only when one is an
    alias of the other.  So the names that share a value with another name
    are the 8 alias names and their 8 targets, 16 names in all. *)
Theorem canonical_values_distinct :
  length literals = 62%nat
  ∧ length (aliases Header.socket_h) = 8%nat
  ∧ (∀ A B, A ∈ literals → B ∈ literals → A ≠ B → value_of A ≠ value_of B)
  ∧ (∀ A B, (A, B) ∈ aliases Header.socket_h →
       A ≠ B ∧ B ∈ literals ∧ value_of A = value_of B)
  ∧ (∀ A B, A ∈ names → B ∈ names → A ≠ B → value_of A = value_of B →
       (A, B) ∈ aliases Header.socket_h ∨ (B, A) ∈ aliases Header.socket_h)
  ∧ (∀ N, N ∈ names →
       (shares_value N ↔ N ∈ (aliases Header.socket_h).*1
                         ∨ N ∈ (aliases Header.socket_h).*2))
  ∧ NoDup ((aliases Header.socket_h).*1 ++ (aliases Header.socket_h).*2)%list
  ∧ length ((aliases Header.socket_h).*1
            ++ (aliases Header.socket_h).*2)%list = 16%nat.
Proof.
  destruct alias_collisions as (Hlit & Hpair & Hshare).
  split; [reflexivity|]. split; [reflexivity|].
  split; [exact Hlit|]. split; [exact Hpair|]. split; [exact Hshare|].
  split; [|split; [compute_done|reflexivity]].
  assert (Hin : ∀ A B, (A, B) ∈ aliases Header.socket_h →
                       A ∈ names ∧ B ∈ names).
  { rewrite aliases_socket_h. intros A B.
    exact (proj1 (Forall_forall _ _) alias_pairs_names (A, B)). }
  intros N HN. split.
  - intros (M & HM & Hne & Heq).
    destruct (Hshare M N HM HN Hne Heq) as [H|H].
    + right. by apply (list_elem_of_fmap_2 snd _ (M, N)).
    + left. by apply (list_elem_of_fmap_2 fst _ (N, M)).
  - intros [([A B] & -> & H)%list_elem_of_fmap
           |([A B] & -> & H)%list_elem_of_fmap]; simpl.
    + destruct (Hpair A B H) as (Hne & _ & Heq), (Hin A B H) as [_ HB].
      exists B. split; [done|]. split; congruence.
    + destruct (Hpair A B H) as (Hne & _ & Heq), (Hin A B H) as [HA _].
      exists A. by repeat split.
Qed.

Lemma canonical_values_distinct_witness :
  value_of "SO_TYPE" ≠ value_of "SO_ERROR"
  ∧ (("SO_STYLE", "SO_TYPE") ∈ aliases Header.socket_h
     ∨ ("SO_TYPE", "SO_STYLE") ∈ aliases Header.socket_h)
  ∧ shares_value "SO_DETACH_FILTER".
Proof.
  destruct canonical_values_distinct
    as (_ & _ & Hlit & _ & Hshare & Hiff & _).
  split; [|split].
  - apply Hlit; compute_done.
  - apply Hshare; [compute_done|compute_done|discriminate|].
    vm_compute. reflexivity.
  - apply Hiff; [compute_done|]. right. compute_done.
Defined.

(** C10: every value of the header lies between 0 and 0xffff, so below
    2^16, and SOL_SOCKET has the largest one, 0xffff. *)
Theorem values_fit_16_bits :
  value_of "SOL_SOCKET" = Some 0xffff
  ∧ ∀ N z, value_of N = Some z → 0 ≤ z ≤ 0xffff ∧ z < 2 ^ 16.
Proof.
  split; [vm_compute; reflexivity|].
  intros N z Hz.
  assert (HN : In N names)
    by (apply list_elem_of_In; exact (value_of_defined _ _ Hz)).
  pose proof (proj1 (forallb_forall _ _) values_within N HN) as Hw.
  apply value_within_spec in Hw as (z' & Hz' & Hb).
  assert (z' = z) as -> by congruence. lia.
Qed.

Lemma values_fit_16_bits_witness : 0 ≤ 4137 ≤ 0xffff ∧ 4137 < 2 ^ 16.
Proof.
  apply (proj2 values_fit_16_bits "SO_DOMAIN" 4137). vm_compute. reflexivity.
Defined.

(** ** Definitions met again, in another order, in another context *)

Section Run.

Implicit Types (m M : gmap string string) (d : define) (ds : list define).
Implicit Types (N tok : string) (hidden : gset string).

Lemma run_is_Some m ds : is_Some (Cpp.run m ds).
Proof. revert m. induction ds as [|d ds IH]; intros m; simpl; eauto. Qed.

(** A name that the list does not define is left as it is. *)
Lemma run_lookup_other m ds m' N :
  Cpp.run m ds = Some m' → N ∉ defined_names ds → m' !! N = m !! N.
Proof.
  revert m. induction ds as [|d ds IH]; intros m; simpl.
  - by intros [= <-].
  - intros Hrun [Hne HN]%not_elem_of_cons.
    rewrite (IH _ Hrun HN). by apply lookup_insert_ne.
Qed.

(** After a list that defines no name twice every one of its names has the
    replacement the list gives it, whatever it had before. *)
Lemma run_lookup_define m ds m' d :
  NoDup (defined_names ds) → Cpp.run m ds = Some m' → d ∈ ds →
  m' !! macro_name d = Some (replacement d).
Proof.
  revert m. induction ds as [|d0 ds IH]; intros m; simpl.
  - intros _ _ Hd. by apply elem_of_nil in Hd.
  - intros [Hd0 Hnd]%NoDup_cons Hrun [->|Hd]%elem_of_cons; [|eauto].
    rewrite (run_lookup_other _ _ _ _ Hrun Hd0). apply lookup_insert_eq.
Qed.

(** Two lists with the same definitions, none twice, end in one table. *)
Lemma run_ext m ds ds' m1 m2 :
  NoDup (defined_names ds) → NoDup (defined_names ds') →
  (∀ d, d ∈ ds ↔ d ∈ ds') →
  Cpp.run m ds = Some m1 → Cpp.run m ds' = Some m2 → m1 = m2.
Proof.
  intros Hnd Hnd' Hiff H1 H2. apply map_eq. intros N.
  destruct (decide (N ∈ defined_names ds)) as [HN|HN].
  - apply list_elem_of_fmap in HN as (d & -> & Hd).
    rewrite (run_lookup_define _ _ _ _ Hnd H1 Hd).
    symmetry. apply (run_lookup_define _ _ _ _ Hnd' H2). by apply Hiff.
  - rewrite (run_lookup_other _ _ _ _ H1 HN). symmetry.
    apply (run_lookup_other _ _ _ _ H2).
    intros (d & -> & Hd)%list_elem_of_fmap. apply HN.
    apply list_elem_of_fmap_2. by apply Hiff.
Qed.

Lemma run_Permutation m ds ds' m' :
  NoDup (defined_names ds) →
  ds ≡ₚ ds' → Cpp.run m ds = Some m' → Cpp.run m ds' = Some m'.
Proof.
  intros Hnd Hp Hrun. destruct (run_is_Some m ds') as [m'' Hrun'].
  rewrite Hrun'. f_equal. symmetry.
  apply (run_ext m ds ds'); [done| |by intros d; rewrite Hp|done|done].
  unfold defined_names. by rewrite <- Hp.
Qed.

Lemma eval_Permutation ds ds' N :
  NoDup (defined_names ds) →
  ds ≡ₚ ds' → Cpp.eval ds N = Cpp.eval ds' N.
Proof.
  intros Hnd Hp. unfold Cpp.eval.
  destruct (run_is_Some ∅ ds) as [m Hrun].
  by rewrite Hrun, (run_Permutation _ _ _ _ Hnd Hp Hrun).
Qed.

(** Definitions that are compatible with the table leave it whole. *)
Lemma run_compatible_subseteq m ds m' :
  NoDup (defined_names ds) → compatible m ds →
  Cpp.run m ds = Some m' → m ⊆ m'.
Proof.
  intros Hnd Hc Hrun. apply map_subseteq_spec. intros N r HN.
  destruct (decide (N ∈ defined_names ds)) as [Hin|Hout].
  - apply list_elem_of_fmap in Hin as (d & -> & Hd).
    rewrite (run_lookup_define _ _ _ _ Hnd Hrun Hd).
    destruct (Hc d Hd); congruence.
  - by rewrite (run_lookup_other _ _ _ _ Hrun Hout).
Qed.

(** More fuel does not change an expansion. *)
Lemma expand_S m fuel hidden tok x :
  Cpp.expand m fuel hidden tok = Some x →
  Cpp.expand m (S fuel) hidden tok = Some x.
Proof.
  revert hidden tok. induction fuel as [|fuel IH]; intros hidden tok.
  - discriminate.
  - intros H. change (Cpp.expand m (S (S fuel)) hidden tok) with
      (if decide (tok ∈ hidden) then Some tok
       else match m !! tok with
            | Some r => Cpp.expand m (S fuel) ({[tok]} ∪ hidden) r
            | None => Some tok
            end).
    simpl in H. case_decide; [done|].
    destruct (m !! tok) as [r|]; [|done]. by apply IH.
Qed.

Lemma expand_le m fuel fuel' hidden tok x :
  (fuel ≤ fuel')%nat →
  Cpp.expand m fuel hidden tok = Some x →
  Cpp.expand m fuel' hidden tok = Some x.
Proof. induction 1; [done|]. intros. apply expand_S. eauto. Qed.

(** An expansion found with some fuel is the one [value_in] finds. *)
Lemma expand_any_fuel m fuel tok x :
  Cpp.expand m fuel ∅ tok = Some x →
  Cpp.expand m (S (size m)) ∅ tok = Some x.
Proof.
  intros H. destruct (decide (fuel ≤ S (size m))%nat) as [Hle|Hgt].
  - by apply (expand_le _ fuel).
  - destruct (expand_total m tok) as [y Hy].
    assert (Hle : (S (size m) ≤ fuel)%nat) by lia.
    rewrite (expand_le _ _ _ _ _ _ Hle Hy) in H. congruence.
Qed.

End Run.

(** ** The header in a translation unit *)

(** Every line of the header defines an identifier, by a token that is not
    one or by another name, which the header defines by such a token. *)
Lemma socket_h_shape :
  Forall (fun d =>
      Token.is_identifier (macro_name d) = true
      ∧ (Token.is_identifier (replacement d) = false
         ∨ (replacement d ≠ macro_name d
            ∧ Exists (fun t =>
                  macro_name t = replacement d
                  ∧ Token.is_identifier (replacement t) = false)
                Header.socket_h)))
    Header.socket_h.
Proof. compute_done. Qed.

Lemma socket_h_accepted : is_Some (Cpp.run ∅ Header.socket_h).
Proof. compute_done. Qed.

Lemma socket_h_targets_before : targets_before [] Header.socket_h = true.
Proof. vm_compute. reflexivity. Qed.

Section Context.

Implicit Types (m : gmap string string) (N T r : string).

Lemma not_identifier_undefined m r :
  identifier_keys m → Token.is_identifier r = false → m !! r = None.
Proof.
  intros Hk Hr. destruct (m !! r) as [x|] eqn:Hm; [|done].
  rewrite Hk in Hr by eauto. discriminate.
Qed.

Lemma expand_literal m N r :
  identifier_keys m → m !! N = Some r → Token.is_identifier r = false →
  Cpp.expand m 2 ∅ N = Some r.
Proof.
  intros Hk HN Hr. simpl.
  rewrite decide_False by apply not_elem_of_empty. rewrite HN.
  case_decide; [done|]. by rewrite (not_identifier_undefined m r).
Qed.

Lemma expand_alias m N T r :
  identifier_keys m → m !! N = Some T → T ≠ N → m !! T = Some r →
  Token.is_identifier r = false →
  Cpp.expand m 3 ∅ N = Some r.
Proof.
  intros Hk HN Hne HT Hr. simpl.
  rewrite decide_False by apply not_elem_of_empty. rewrite HN.
  rewrite decide_False
    by (rewrite not_elem_of_union, not_elem_of_singleton;
        split; [done|apply not_elem_of_empty]).
  rewrite HT.
  case_decide; [done|]. by rewrite (not_identifier_undefined m r).
Qed.

(** Two tables that have the header give its names the same values. *)
Lemma value_in_agree m1 m2 N :
  has_socket_h m1 → has_socket_h m2 → N ∈ defined_names Header.socket_h →
  value_in m1 N = value_in m2 N.
Proof.
  intros [Hk1 Hd1] [Hk2 Hd2] (d & -> & Hd)%list_elem_of_fmap.
  destruct (proj1 (Forall_forall _ _) socket_h_shape d Hd) as [_ Hshape].
  unfold value_in. rewrite (Hd1 d Hd), (Hd2 d Hd).
  destruct Hshape as [Hlit|[Hne (t & Ht & Hname & Hlit)%Exists_exists]].
  - rewrite (expand_any_fuel m1 2 _ (replacement d)),
      (expand_any_fuel m2 2 _ (replacement d)); [done| |];
      by apply expand_literal; auto.
  - rewrite (expand_any_fuel m1 3 _ (replacement t)),
      (expand_any_fuel m2 3 _ (replacement t)); [done| |];
      apply (expand_alias _ _ (replacement d)); auto;
      rewrite <- Hname; auto.
Qed.

Lemma run_has_socket_h m m' :
  identifier_keys m → Cpp.run m Header.socket_h = Some m' → has_socket_h m'.
Proof.
  intros Hk Hrun.
  split; [|intros d; exact (run_lookup_define _ _ _ _ names_NoDup Hrun)].
  intros k [Hm|(d & -> & Hd)%list_elem_of_fmap]%(run_lookup_is_Some _ _ _ _ Hrun);
    [by apply Hk|].
  by destruct (proj1 (Forall_forall _ _) socket_h_shape d Hd).
Qed.

Lemma value_of_value_in m N :
  has_socket_h m → N ∈ defined_names Header.socket_h →
  value_in m N = value_of N.
Proof.
  intros Hm HN. destruct socket_h_accepted as [H Hrun].
  change (value_of N) with (Cpp.eval Header.socket_h N).
  unfold Cpp.eval. rewrite Hrun.
  apply (value_in_agree m H N Hm); [|done].
  apply (run_has_socket_h ∅); [|done].
  intros k [x Hx]. by rewrite lookup_empty in Hx.
Qed.

End Context.

(** ** The whole file, processed *)

Section Included.

Variable include : string → gmap string string → option (gmap string string).

Implicit Types (m : gmap string string) (ds : list define).

Lemma process_skip_defines opened k m ds rest :
  File.process include opened (S k) m ((File.DefineLine <$> ds) ++ rest)
  = File.process include opened (S k) m rest.
Proof. induction ds as [|d ds IH]; [done|]. simpl. exact IH. Qed.

Lemma process_defines opened m ds rest :
  File.process include opened 0 m ((File.DefineLine <$> ds) ++ rest)
  = match Cpp.run m ds with
    | Some m' => File.process include opened 0 m' rest
    | None => None
    end.
Proof.
  revert m. induction ds as [|d ds IH]; intros m; [done|]. simpl. apply IH.
Qed.

(** What including the file comes to: nothing when the guard is defined;
    otherwise the guard, the included header and the 70 definitions. *)
Lemma include_socket_h_unfold m :
  File.include_socket_h include m
  = match m !! File.guard with
    | Some _ => Some m
    | None =>
        match include "asm/sockios.h" (<[File.guard := ""]> m) with
        | Some m2 => Cpp.run m2 Header.socket_h
        | None => None
        end
    end.
Proof.
  unfold File.include_socket_h, File.socket_h.
  cbn [app File.process].
  destruct (m !! File.guard) as [g|] eqn:Hg.
  - rewrite process_skip_defines. reflexivity.
  - unfold Cpp.do_define. cbn [macro_name replacement].
    destruct (include "asm/sockios.h" (<[File.guard:=""]> m)) as [m2|];
      [|done].
    rewrite process_defines.
    destruct (Cpp.run m2 Header.socket_h) as [m'|]; [|done].
    reflexivity.
Qed.

End Included.

Lemma identifier_keys_Forall (m : gmap string string) :
  map_Forall (fun k _ => Token.is_identifier k = true) m → identifier_keys m.
Proof. intros H k [r Hr]. exact (H k r Hr). Qed.

Lemma compatible_Forall (m : gmap string string) ds :
  Forall (fun d => m !! macro_name d = None
                   ∨ m !! macro_name d = Some (replacement d)) ds →
  compatible m ds.
Proof. intros H d. exact (proj1 (Forall_forall _ _) H d). Qed.

Lemma targets_before_split (seen ds pre : list define) d post :
  targets_before seen ds = true →
  ds = (pre ++ d :: post)%list →
  Token.is_identifier (replacement d) = true →
  ∃ t, t ∈ (pre ++ seen)%list ∧ macro_name t = replacement d
       ∧ Token.is_identifier (replacement t) = false.
Proof.
  revert seen ds. induction pre as [|p pre IH]; intros seen ds Hb -> Hd.
  - simpl in Hb. rewrite Hd in Hb.
    apply andb_true_iff in Hb as [(t & Ht & Hb)%existsb_exists _].
    apply andb_true_iff in Hb as [Hn%bool_decide_eq_true Hl%negb_true_iff].
    exists t. by rewrite list_elem_of_In.
  - simpl in Hb. apply andb_true_iff in Hb as [_ Hb].
    destruct (IH (p :: seen) _ Hb eq_refl Hd) as (t & Ht & Hn & Hl).
    exists t. split; [|done].
    revert Ht. simpl. rewrite elem_of_cons, !elem_of_app, elem_of_cons. tauto.
Qed.

Lemma guard_not_a_name : File.guard ∉ names.
Proof. compute_done. Qed.

(** ** Properties of the whole file *)

(** X1: when the guard [_UAPI_ASM_SOCKET_H] is already defined, including
    the file leaves the macros as they are; the header it includes is not
    even looked at. *)
Theorem guard_skips_file include (m : gmap string string) :
  is_Some (m !! File.guard) → File.include_socket_h include m = Some m.
Proof.
  intros [g Hg]. by rewrite include_socket_h_unfold, Hg.
Qed.

Lemma guard_skips_file_witness :
  File.include_socket_h (fun _ _ => None) {[ File.guard := "" ]}
  = Some {[ File.guard := "" ]}.
Proof. apply guard_skips_file. rewrite lookup_singleton_eq. eauto. Defined.

(** X2: including the file twice is including it once, provided the header
    it includes only adds definitions: the first inclusion defines the
    guard, which makes the second one skip the file. *)
Theorem include_socket_h_twice include (m : gmap string string) :
  (∀ h a b, include h a = Some b → a ⊆ b) →
  File.include_socket_h include m ≫= File.include_socket_h include
  = File.include_socket_h include m.
Proof.
  intros Hinc.
  destruct (File.include_socket_h include m) as [m'|] eqn:Hm; [|done].
  change (File.include_socket_h include m' = Some m').
  apply guard_skips_file.
  rewrite include_socket_h_unfold in Hm.
  destruct (m !! File.guard) as [g|] eqn:Hg; [injection Hm as <-; eauto|].
  destruct (include "asm/sockios.h" (<[File.guard:=""]> m)) as [m2|] eqn:H2;
    [|discriminate].
  exists "". rewrite (run_lookup_other _ _ _ _ Hm guard_not_a_name).
  eapply lookup_weaken; [|exact (Hinc _ _ _ H2)]. apply lookup_insert_eq.
Qed.

Lemma include_socket_h_twice_witness :
  is_Some (File.include_socket_h (fun _ a => Some a) ∅)
  ∧ File.include_socket_h (fun _ a => Some a) ∅
      ≫= File.include_socket_h (fun _ a => Some a)
    = File.include_socket_h (fun _ a => Some a) ∅.
Proof.
  split; [compute_done|].
  apply include_socket_h_twice. by intros _ a b [= <-].
Defined.

(** X3: the values do not depend on the translation unit.  When the guard
    is not defined and the macros after [asm/sockios.h], all named by
    identifiers, define no name of the header with another replacement,
    the file is accepted, keeps those macros, and gives each of the 70
    names the value it has on its own. *)
Theorem include_socket_h_values include (m0 m2 : gmap string string) :
  m0 !! File.guard = None →
  include "asm/sockios.h" (<[File.guard := ""]> m0) = Some m2 →
  identifier_keys m2 →
  compatible m2 Header.socket_h →
  ∃ m, File.include_socket_h include m0 = Some m ∧ m2 ⊆ m
       ∧ ∀ N, N ∈ names → value_in m N = value_of N.
Proof.
  intros Hg H2 Hk Hc. rewrite include_socket_h_unfold, Hg, H2.
  destruct (run_is_Some m2 Header.socket_h) as [m Hrun].
  exists m. split; [done|].
  split; [exact (run_compatible_subseteq _ _ _ names_NoDup Hc Hrun)|].
  intros N. apply value_of_value_in. exact (run_has_socket_h _ _ Hk Hrun).
Qed.

Lemma include_socket_h_values_witness :
  ∃ m, File.include_socket_h
         (fun _ a => Cpp.do_define a (Define "SIOCGSTAMP" "0x8906"))
         {[ "SO_DEBUG" := "0x0001" ]} = Some m
       ∧ <[ "SIOCGSTAMP" := "0x8906" ]>
           (<[ File.guard := "" ]> {[ "SO_DEBUG" := "0x0001" ]}) ⊆ m
       ∧ ∀ N, N ∈ names → value_in m N = value_of N.
Proof.
  apply include_socket_h_values.
  - compute_done.
  - compute_done.
  - apply identifier_keys_Forall. compute_done.
  - apply compatible_Forall. compute_done.
Defined.

(** X4: a name of the header that is defined otherwise beforehand does not
    stop the file and does not keep that definition.  When the guard is not
    defined, the file is accepted after any macros named by identifiers,
    every name of the header then has the replacement the header gives it,
    and so the value it has in the header taken alone. *)
Theorem include_socket_h_redefines include (m0 m2 : gmap string string) :
  m0 !! File.guard = None →
  include "asm/sockios.h" (<[File.guard := ""]> m0) = Some m2 →
  identifier_keys m2 →
  ∃ m, File.include_socket_h include m0 = Some m
       ∧ (∀ d, d ∈ Header.socket_h →
            m !! macro_name d = Some (replacement d))
       ∧ ∀ N, N ∈ names → value_in m N = value_of N.
Proof.
  intros Hg H2 Hk. rewrite include_socket_h_unfold, Hg, H2.
  destruct (run_is_Some m2 Header.socket_h) as [m Hrun].
  exists m. split; [done|].
  destruct (run_has_socket_h _ _ Hk Hrun) as [Hkm Hdm].
  split; [exact Hdm|].
  intros N. by apply value_of_value_in.
Qed.

Lemma include_socket_h_redefines_witness :
  ∃ m, File.include_socket_h (fun _ a => Some a) {[ "SO_LINGER" := "13" ]}
       = Some m
       ∧ (∀ d, d ∈ Header.socket_h →
            m !! macro_name d = Some (replacement d))
       ∧ ∀ N, N ∈ names → value_in m N = value_of N.
Proof.
  apply (include_socket_h_redefines _ _
           (<[ File.guard := "" ]> {[ "SO_LINGER" := "13" ]})).
  - compute_done.
  - reflexivity.
  - apply identifier_keys_Forall. compute_done.
Defined.

(** X5: the order of the 70 lines does not matter: in every rearrangement
    of the header each name has the value it has in the header. *)
Theorem header_order_irrelevant ds N :
  Header.socket_h ≡ₚ ds → Cpp.eval ds N = value_of N.
Proof.
  intros Hp. change (value_of N) with (Cpp.eval Header.socket_h N).
  symmetry. apply eval_Permutation; [exact names_NoDup|done].
Qed.

Lemma header_order_irrelevant_witness :
  Cpp.eval (reverse Header.socket_h) "SO_STYLE" = value_of "SO_STYLE".
Proof.
  apply header_order_irrelevant. symmetry. apply reverse_Permutation.
Defined.

(** X6: every alias stands after its target: the name that an alias is
    defined as is defined on an earlier line, by an integer constant. *)
Theorem alias_follows_target (pre post : list define) A B :
  Header.socket_h = (pre ++ Define A B :: post)%list →
  Token.is_identifier B = true →
  ∃ r, Define B r ∈ pre ∧ Token.is_identifier r = false.
Proof.
  intros Hsplit HB.
  destruct (targets_before_split [] _ pre (Define A B) post
              socket_h_targets_before Hsplit HB) as ([T r] & Ht & Hn & Hl).
  simpl in Hn, Hl. subst T. exists r. by rewrite app_nil_r in Ht.
Qed.

Lemma alias_follows_target_witness :
  ∃ r, Define "SO_TYPE" r ∈ take 10 Header.socket_h
       ∧ Token.is_identifier r = false.
Proof.
  apply (alias_follows_target _ (drop 11 Header.socket_h) "SO_STYLE" "SO_TYPE");
    reflexivity.
Defined.

(** X7: the 70 definitions may be met again after themselves, without the
    guard: they are accepted and change nothing, since each name is
    defined again with the replacement it has. *)
Theorem socket_h_again (m : gmap string string) :
  Cpp.run m Header.socket_h ≫= (fun m' => Cpp.run m' Header.socket_h)
  = Cpp.run m Header.socket_h.
Proof.
  destruct (Cpp.run m Header.socket_h) as [m'|] eqn:Hrun; [|done].
  change (Cpp.run m' Header.socket_h = Some m').
  destruct (run_is_Some m' Header.socket_h) as [x Hx].
  rewrite Hx. f_equal. apply map_eq. intros N.
  destruct (decide (N ∈ names)) as [HN|HN].
  - apply list_elem_of_fmap in HN as (d & -> & Hd).
    by rewrite (run_lookup_define _ _ _ _ names_NoDup Hx Hd),
      (run_lookup_define _ _ _ _ names_NoDup Hrun Hd).
  - exact (run_lookup_other _ _ _ _ Hx HN).
Qed.

(** X8: including the file touches the 70 names only.  When the guard is
    not defined and the file is accepted, every macro present after
    [asm/sockios.h] under another name (the guard among them) is kept as it
    is, no other name gets defined, and the names defined in the end are
    those macros and the 70 names of the header. *)
Theorem include_socket_h_frame include (m0 m : gmap string string) :
  m0 !! File.guard = None →
  File.include_socket_h include m0 = Some m →
  ∃ m2, include "asm/sockios.h" (<[File.guard := ""]> m0) = Some m2
        ∧ (∀ k, k ∉ names → m !! k = m2 !! k)
        ∧ ∀ k, is_Some (m !! k) ↔ is_Some (m2 !! k) ∨ k ∈ names.
Proof.
  intros Hg. rewrite include_socket_h_unfold, Hg.
  destruct (include "asm/sockios.h" (<[File.guard:=""]> m0)) as [m2|];
    [|discriminate].
  intros Hrun. exists m2. split; [done|].
  split; [intros k; exact (run_lookup_other _ _ _ k Hrun)|].
  intros k. exact (run_lookup_is_Some _ _ _ k Hrun).
Qed.

Lemma include_socket_h_frame_witness :
  ∃ m m2 : gmap string string,
    File.include_socket_h (fun _ a => Some a)
      (<[ "FIONREAD" := "0x467f" ]> {[ "SO_DEBUG" := "1" ]}) = Some m
    ∧ (∀ k, k ∉ names → m !! k = m2 !! k)
    ∧ ∀ k, is_Some (m !! k) ↔ is_Some (m2 !! k) ∨ k ∈ names.
Proof.
  assert (Hs : is_Some (File.include_socket_h (fun _ a => Some a)
                          (<[ "FIONREAD" := "0x467f" ]>
                             {[ "SO_DEBUG" := "1" ]})))
    by compute_done.
  destruct Hs as [m Hm].
  assert (Hg : (<[ "FIONREAD" := "0x467f" ]> {[ "SO_DEBUG" := "1" ]}
                : gmap string string) !! File.guard = None)
    by compute_done.
  destruct (include_socket_h_frame _ _ m Hg Hm) as (m2 & _ & H).
  exists m, m2. split; [exact Hm|exact H].
Defined.
